(** * real-file-type: detecting a file's type from its magic bytes

    A shallow embedding of [src/index.js] and a verification of the
    signature matcher ([check]) and of the table scan performed by
    [getFileType].

    The JavaScript is modelled as it is written:
    - a [Uint8Array] is a [list byte]; indexing it out of range yields
      [undefined] instead of raising;
    - a [signature] array holds numbers and [undefined] (the "any byte"
      marker), so its elements are [value]s;
    - the loop over a signature keeps its counter, since
      [signature[i]] and [bufferss[i + offset]] are read by index; the
      loop over the signature list visits its elements in order;
    - the promise chain [getArrayBuffer(..).then(..).catch(..)] is a
      small [promise] type with [then_] and [catch_]. *)

From Stdlib Require Import ZArith Lia.
From Stdlib Require Import Strings.String Strings.Byte.
From stdpp Require Import base tactics option list.

Local Open Scope string_scope.
Local Open Scope list_scope.
Local Open Scope Z_scope.

(** ** JavaScript values *)

(** What an element of a [signature] array, or the result of indexing
    a typed array, can be. *)
Inductive value : Type :=
  | Undefined
  | Num (n : Z).

#[global] Instance value_eq_dec : EqDecision value.
Proof. solve_decision. Defined.

(** [a !== b] on the values above. *)
Definition strict_ne (a b : value) : bool := negb (bool_decide (a = b)).

(** The number stored in one cell of a [Uint8Array]. *)
Definition byte_val (x : byte) : Z := Z.of_N (Byte.to_N x).

(** [bufferss[k]] for a [Uint8Array]: the cell's number when [k] is a
    valid index, [undefined] otherwise. *)
Definition get (bufferss : list byte) (k : Z) : value :=
  if k <? 0 then Undefined
  else match bufferss !! Z.to_nat k with
       | Some x => Num (byte_val x)
       | None => Undefined
       end.

(** [signature[i]] for an ordinary array: reading past the end (or a
    hole) gives [undefined]. *)
Definition at_index (signature : list value) (i : nat) : value :=
  default Undefined (signature !! i).

(** ** Signature entries *)

(** One element of the signature list,
    [{ mime, ext, offset, signature }]; [offset] may be left out. *)
Record typeItem : Type := TypeItem {
  mime : string;
  ext : string;
  offset : option Z;
  signature : list value
}.

(** The destructuring default [offset = 0]. *)
Definition offset_or_0 (item : typeItem) : Z := default 0 (offset item).

(** ** [check] *)

(** The body of
    [for (let i = 0, len = signature.length; i < len; i++)],
    entered with counter [i] and [n = len - i] iterations to go. *)
Fixpoint check_for (bufferss : list byte) (signature : list value)
    (offset : Z) (n : nat) (i : nat) : bool :=
  match n with
  | O => true
  | S n' =>
      if strict_ne (get bufferss (Z.of_nat i + offset)) (at_index signature i)
         && strict_ne (at_index signature i) Undefined
      then false
      else check_for bufferss signature offset n' (S i)
  end.

Definition check (bufferss : list byte) (item : typeItem) : bool :=
  check_for bufferss (signature item) (offset_or_0 item)
            (length (signature item)) 0.

(** ** Promises *)

Inductive promise (A E : Type) : Type :=
  | Resolved (a : A)
  | Rejected (err : E).
Arguments Resolved {A E} a.
Arguments Rejected {A E} err.

(** [p.then(f)] for a callback that returns a plain value. *)
Definition then_ {A B E : Type} (p : promise A E) (f : A -> B) : promise B E :=
  match p with
  | Resolved a => Resolved (f a)
  | Rejected err => Rejected err
  end.

(** [p.catch(h)] for a handler that returns a plain value: the chain
    settles with either the value of [p] or what [h] makes of the
    rejection. *)
Definition catch_ {A B E : Type} (p : promise A E) (h : E -> B)
    : promise (A + B) E :=
  match p with
  | Resolved a => Resolved (inl a)
  | Rejected err => Resolved (inr (h err))
  end.

(** ** [getArrayBuffer] *)

(** The part of a [File] object the code reads. *)
Record File : Type := { type : string }.

(** The read range [{ start, end }]. *)
Record options : Type := { start : Z; end_ : Z }.

(** The default value of the second parameter of [getFileType]. *)
Definition default_options : options := {| start := 0; end_ := 32 |}.

(** How the [FileReader] started by [getArrayBuffer] ends: [onload]
    with the bytes of [file.slice(start, end)], [onerror], [onabort],
    or an exception thrown while it is set up. *)
Inductive reader_outcome (E : Type) : Type :=
  | onload (result : list byte)
  | onerror (err : E)
  | onabort (err : E)
  | thrown (err : E).
Arguments onload {E} result.
Arguments onerror {E} err.
Arguments onabort {E} err.
Arguments thrown {E} err.

(** The browser's [FileReader], which is not part of the repository:
    what reading [file.slice(start, end)] ends with. *)
Definition FileReader (E : Type) : Type := File -> options -> reader_outcome E.

Definition getArrayBuffer {E : Type} (reader : FileReader E)
    (file : File) (opts : options) : promise (list byte) E :=
  match reader file opts with
  | onload result => Resolved result
  | onerror err => Rejected err
  | onabort err => Rejected err
  | thrown err => Rejected err
  end.

(** ** [getFileType] *)

(** The object [{ mime, ext }] that [getFileType] resolves with. *)
Module Info.
Record t : Type := Make { mime : string; ext : string }.
End Info.

(** The [for] loop over the signature list: [Some] when its [return]
    fires, [None] when the loop runs to its end. *)
Fixpoint scan (buffers : list byte) (signatureList : list typeItem)
    : option Info.t :=
  match signatureList with
  | [] => None
  | item :: rest =>
      if check buffers item
      then Some (Info.Make (mime item) (ext item))
      else scan buffers rest
  end.

(** The callback handed to [.then]: the loop, then the fallback
    [return { mime: file.type, ext: "" }]. *)
Definition classify (buffers : list byte) (signatureList : list typeItem)
    (file : File) : Info.t :=
  match scan buffers signatureList with
  | Some found => found
  | None => Info.Make (type file) ""
  end.

Definition getFileType {E : Type} (reader : FileReader E)
    (signatureList : list typeItem) (file : File) (opts : options)
    : promise (Info.t + E) E :=
  catch_
    (then_ (getArrayBuffer reader file opts)
           (fun buffers => classify buffers signatureList file))
    (fun err => err).

(** ** Writing a cell *)

(** [buffers[k] = x] on a typed array: a write outside the array is
    dropped. *)
Definition put (buffers : list byte) (k : Z) (x : byte) : list byte :=
  if k <? 0 then buffers else <[Z.to_nat k := x]> buffers.

(** ** The signatures listed in the README *)

Definition bytes_of (l : list Z) : list value := Num <$> l.

Definition pdf : typeItem :=
  TypeItem "application/pdf" "pdf" (Some 0) (bytes_of [0x25; 0x50; 0x44; 0x46; 0x2D]).
Definition jpeg : typeItem :=
  TypeItem "image/jpeg" "jpg,jpeg" (Some 0) (bytes_of [0xFF; 0xD8; 0xFF]).
Definition png : typeItem :=
  TypeItem "image/png" "png" (Some 0)
           (bytes_of [0x89; 0x50; 0x4E; 0x47; 0x0D; 0x0A; 0x1A; 0x0A]).
Definition mp4 : typeItem :=
  TypeItem "video/mp4" "mp4" (Some 4)
           (bytes_of [0x66; 0x74; 0x79; 0x70; 0x69; 0x73; 0x6F; 0x6D]).
Definition gif : typeItem :=
  TypeItem "image/gif" "gif" (Some 0) (bytes_of [0x47; 0x49; 0x46; 0x38; 0x37; 0x61]).
Definition mp3 : typeItem :=
  TypeItem "audio/mpeg" "mp3" (Some 0) (bytes_of [0x49; 0x44; 0x33]).

Definition flv : typeItem :=
  TypeItem "video/x-flv" "flv" (Some 0) (bytes_of [0x46; 0x4C; 0x56]).
Definition ogg : typeItem :=
  TypeItem "application/ogg" "ogg,oga,ogv" (Some 0) (bytes_of [0x4F; 0x67; 0x67; 0x53]).
Definition rar : typeItem :=
  TypeItem "application/x-rar-compressed" "rar" (Some 0)
           (bytes_of [0x52; 0x61; 0x72; 0x21; 0x1A; 0x07; 0x00]).

Definition readme_list : list typeItem :=
  [pdf; jpeg; png; mp4; gif; mp3; flv; ogg; rar].

(** The first bytes of a PNG file, as quoted in the README. *)
Definition png_head : list byte :=
  Eval cbv in
    omap (fun n => Byte.of_N (Z.to_N n))
         [137; 80; 78; 71; 13; 10; 26; 10; 0; 0; 0; 13; 73; 72; 68; 82].


(** ** Table construction *)

(** Modelled from the spec: construction of the signature table.  The
    module [signature-list.js], which builds the list that [index.js]
    imports, is not among the sources.  The spec says that an entry
    with an empty pattern is malformed, that construction rejects a
    malformed entry with a [ConfigurationError], that construction
    from valid input cannot fail, and that [entries()] keeps the
    construction order. *)
Inductive construction_error : Type := ConfigurationError.

Record SignatureTable : Type := { entries : list typeItem }.

Definition malformed (item : typeItem) : bool :=
  match signature item with
  | [] => true
  | _ :: _ => false
  end.

Definition construct (items : list typeItem)
    : construction_error + SignatureTable :=
  if existsb malformed items
  then inl ConfigurationError
  else inr {| entries := items |}.

(** ** Vocabulary of the statements *)

(** Cell [k] of the buffer exists and holds [x]. *)
Definition present (bufferss : list byte) (k : Z) (x : byte) : Prop :=
  0 <= k /\ bufferss !! Z.to_nat k = Some x.

(** No entry of a list matches the buffer. *)
Definition none_match (buffers : list byte) (l : list typeItem) : Prop :=
  Forall (fun item => check buffers item = false) l.

(** Position [j] of the signature does not make [check] return
    [false]: it is a wildcard, or the buffer holds the same value
    there. *)
Definition position_ok (bufferss : list byte) (signature : list value)
    (offset : Z) (j : nat) : Prop :=
  at_index signature j = Undefined
  \/ get bufferss (Z.of_nat j + offset) = at_index signature j.

(** Some position of the signature holds a number, not the wildcard. *)
Definition has_concrete (item : typeItem) : bool :=
  existsb (fun p => strict_ne p Undefined) (signature item).

(** Two buffers read the same at every position the entry looks at:
    the same number, or [undefined] in both. *)
Definition same_window (b1 b2 : list byte) (item : typeItem) : Prop :=
  forall i : nat, (i < length (signature item))%nat ->
    get b1 (offset_or_0 item + Z.of_nat i)
    = get b2 (offset_or_0 item + Z.of_nat i).

(** ** Sample inputs *)

(** A two-byte signature whose second position is left open. *)
Definition open_tail : typeItem :=
  TypeItem "application/x-open-tail" "ot" (Some 0) [Num 0x89; Undefined].

(** A signature with a single open position. *)
Definition any_byte : typeItem :=
  TypeItem "application/x-any" "any" (Some 0) [Undefined].

(** An entry with no signature bytes at all. *)
Definition no_bytes : typeItem :=
  TypeItem "application/x-none" "none" None [].

(** The bytes [ftypisom]. *)
Definition mp4_brand : list byte :=
  [Byte.x66; Byte.x74; Byte.x79; Byte.x70; Byte.x69; Byte.x73; Byte.x6f; Byte.x6d].

Definition empty_file : File := {| type := "" |}.
Definition renamed_png : File := {| type := "image/jpeg" |}.

(** * Properties *)

(** A PNG file renamed to [.jpg] is still reported as PNG. *)
Example png_head_is_png :
  classify png_head readme_list renamed_png = Info.Make "image/png" "png".
Proof. reflexivity. Qed.

(** The MP4 signature is looked for from cell 4 on. *)
Example mp4_at_offset_4 :
  check (replicate 4 Byte.xff ++ mp4_brand) mp4 = true
  /\ check mp4_brand mp4 = false.
Proof. split; reflexivity. Qed.

(** Thirty-two zero bytes match nothing in the README list. *)
Example zeros_fall_back :
  classify (replicate 32 Byte.x00) readme_list renamed_png
  = Info.Make "image/jpeg" "".
Proof. reflexivity. Qed.


(** ** Reading cells *)

Lemma strict_ne_false a b : strict_ne a b = false <-> a = b.
Proof.
  unfold strict_ne. rewrite negb_false_iff, bool_decide_eq_true. tauto.
Qed.

Lemma strict_ne_true a b : strict_ne a b = true <-> a <> b.
Proof.
  unfold strict_ne. rewrite negb_true_iff, bool_decide_eq_false. tauto.
Qed.

Lemma get_Num bufferss k n :
  get bufferss k = Num n <-> exists x, present bufferss k x /\ byte_val x = n.
Proof.
  unfold get, present. destruct (Z.ltb_spec k 0) as [Hk | Hk].
  - split; [discriminate | intros (x & [? _] & _); lia].
  - destruct (bufferss !! Z.to_nat k) as [y |]; split.
    + intros [= <-]. eauto.
    + intros (x & [_ [= <-]] & <-). reflexivity.
    + discriminate.
    + intros (x & [_ ?] & _). discriminate.
Qed.

Lemma get_past_end bufferss k :
  Z.of_nat (length bufferss) <= k -> get bufferss k = Undefined.
Proof.
  intros Hk. unfold get. destruct (k <? 0); [reflexivity |].
  rewrite (proj2 (lookup_ge_None bufferss (Z.to_nat k))); [reflexivity | lia].
Qed.

Lemma get_negative bufferss k : k < 0 -> get bufferss k = Undefined.
Proof.
  intros Hk. unfold get. destruct (Z.ltb_spec k 0); [reflexivity | lia].
Qed.

Lemma get_nil k : get [] k = Undefined.
Proof. unfold get. destruct (k <? 0); reflexivity. Qed.

(** ** The matching loop *)

Lemma guard_false bufferss signature offset j :
  strict_ne (get bufferss (Z.of_nat j + offset)) (at_index signature j)
  && strict_ne (at_index signature j) Undefined = false
  <-> position_ok bufferss signature offset j.
Proof.
  unfold position_ok.
  rewrite andb_false_iff, !strict_ne_false. tauto.
Qed.

Lemma check_for_true bufferss signature offset n : forall i,
  check_for bufferss signature offset n i = true
  <-> forall j, (i <= j < i + n)%nat -> position_ok bufferss signature offset j.
Proof.
  induction n as [| n IH]; intros i; simpl.
  - split; [intros _ j Hj; lia | reflexivity].
  - destruct (strict_ne _ _ && strict_ne _ _) eqn:Hguard.
    + split; [discriminate |]. intros Hall.
      assert (position_ok bufferss signature offset i) as Hi
        by (apply Hall; lia).
      apply guard_false in Hi. congruence.
    + apply guard_false in Hguard. rewrite IH. split.
      * intros Hall j Hj.
        destruct (decide (j = i)) as [-> | Hne]; [assumption |].
        apply Hall. lia.
      * intros Hall j Hj. apply Hall. lia.
Qed.

Lemma check_true bufferss item :
  check bufferss item = true
  <-> forall j, (j < length (signature item))%nat ->
        position_ok bufferss (signature item) (offset_or_0 item) j.
Proof.
  unfold check. rewrite check_for_true.
  split; intros Hall j Hj; apply Hall; lia.
Qed.

Lemma check_false bufferss item j n :
  signature item !! j = Some (Num n) ->
  get bufferss (Z.of_nat j + offset_or_0 item) <> Num n ->
  check bufferss item = false.
Proof.
  intros Hsig Hget. apply not_true_is_false. intros Hc.
  rewrite check_true in Hc.
  destruct (Hc j) as [Hw | Heq].
  - apply lookup_lt_Some in Hsig. exact Hsig.
  - unfold at_index in Hw. rewrite Hsig in Hw. discriminate.
  - unfold at_index in Heq. rewrite Hsig in Heq. contradiction.
Qed.

Lemma position_ok_lookup bufferss signature offset j p :
  signature !! j = Some p ->
  position_ok bufferss signature offset j
  <-> p = Undefined
      \/ exists x, present bufferss (offset + Z.of_nat j) x /\ p = Num (byte_val x).
Proof.
  intros Hsig. unfold position_ok, at_index. rewrite Hsig. simpl.
  replace (Z.of_nat j + offset) with (offset + Z.of_nat j) by lia.
  split.
  - intros [-> | Hget]; [by left |].
    destruct p as [| n]; [by left | right].
    apply get_Num in Hget as (x & Hx & <-). eauto.
  - intros [-> | (x & Hx & ->)]; [by left | right].
    apply get_Num. eauto.
Qed.

(** ** The scan over the signature list *)

Lemma scan_None buffers l : scan buffers l = None <-> none_match buffers l.
Proof.
  unfold none_match. induction l as [| item rest IH]; simpl.
  - split; [constructor | reflexivity].
  - destruct (check buffers item) eqn:Hc.
    + split; [discriminate |]. intros H. inversion H; congruence.
    + rewrite IH. split; [by constructor | intros H; by inversion H].
Qed.

Lemma scan_first buffers pre item post :
  none_match buffers pre -> check buffers item = true ->
  scan buffers (pre ++ item :: post) = Some (Info.Make (mime item) (ext item)).
Proof.
  unfold none_match. induction 1 as [| x pre Hx _ IH]; intros Hc; simpl.
  - by rewrite Hc.
  - rewrite Hx. by apply IH.
Qed.

(** Whenever some entry matches, the list splits at the first one. *)
Lemma first_match_split buffers l :
  ~ none_match buffers l ->
  exists pre item post,
    l = pre ++ item :: post /\ none_match buffers pre
    /\ check buffers item = true.
Proof.
  unfold none_match. induction l as [| x rest IH]; intros Hn.
  - destruct Hn. constructor.
  - destruct (check buffers x) eqn:Hc.
    + exists [], x, rest. repeat split; [constructor | assumption].
    + destruct IH as (pre & item & post & -> & Hpre & Hitem).
      { intros Hrest. apply Hn. by constructor. }
      exists (x :: pre), item, post. repeat split; [by constructor | assumption].
Qed.

Lemma has_concrete_lookup item :
  has_concrete item = true ->
  exists (i : nat) (n : Z), signature item !! i = Some (Num n).
Proof.
  unfold has_concrete. rewrite existsb_exists.
  intros (p & Hin & Hp). apply strict_ne_true in Hp.
  apply list_elem_of_In, list_elem_of_lookup in Hin as [i Hi].
  destruct p as [| n]; [congruence |]. eauto.
Qed.

Lemma get_put_same buffers k y x :
  present buffers k y -> get (put buffers k x) k = Num (byte_val x).
Proof.
  intros [Hk Hy]. unfold get, put.
  destruct (Z.ltb_spec k 0); [lia |].
  rewrite list_lookup_insert_eq; [reflexivity |].
  by apply lookup_lt_Some in Hy.
Qed.

Lemma check_positions bufferss item :
  check bufferss item = true <->
  forall (i : nat) (p : value),
    signature item !! i = Some p ->
    p = Undefined
    \/ exists x : byte,
         present bufferss (offset_or_0 item + Z.of_nat i) x
         /\ p = Num (byte_val x).
Proof.
  rewrite check_true. split.
  - intros Hall i p Hsig.
    apply (position_ok_lookup bufferss _ _ _ _ Hsig).
    apply Hall. by apply lookup_lt_Some in Hsig.
  - intros Hall j Hj.
    destruct (lookup_lt_is_Some_2 _ _ Hj) as [p Hsig].
    apply (position_ok_lookup bufferss _ _ _ _ Hsig). by apply Hall.
Qed.

(** ** [check] *)

(** C1: [check] returns [true] exactly when every position of the
    signature is either a wildcard ([undefined], which also accepts a
    cell past the end of the buffer) or a number equal to the byte the
    buffer really holds at [offset + i]; a number facing a missing or
    different byte makes the whole match [false]. *)
Theorem check_iff_every_position :
  forall (bufferss : list byte) (item : typeItem),
    (check bufferss item = true <->
     forall (i : nat) (p : value),
       signature item !! i = Some p ->
       p = Undefined
       \/ exists x : byte,
            present bufferss (offset_or_0 item + Z.of_nat i) x
            /\ p = Num (byte_val x))
    /\ (forall (i : nat) (n : Z),
          signature item !! i = Some (Num n) ->
          (forall x : byte,
             present bufferss (offset_or_0 item + Z.of_nat i) x ->
             byte_val x <> n) ->
          check bufferss item = false).
Proof.
  intros bufferss item. split.
  - apply check_positions.
  - intros i n Hsig Hdiff. apply (check_false _ _ i n Hsig).
    rewrite get_Num. intros (x & Hx & Hval).
    replace (Z.of_nat i + offset_or_0 item)
      with (offset_or_0 item + Z.of_nat i) in Hx by lia.
    exact (Hdiff x Hx Hval).
Qed.

(** C3, as amended: a buffer shorter than [offset + signature.length]
    fails to match as soon as one of the positions that fall at or
    past its end holds a number; reading a cell outside the buffer is
    not an error, it yields [undefined]. *)
Theorem short_buffer_no_match :
  forall (bufferss : list byte) (item : typeItem),
    Z.of_nat (length bufferss)
      < offset_or_0 item + Z.of_nat (length (signature item)) ->
    (forall (i : nat) (n : Z),
       signature item !! i = Some (Num n) ->
       Z.of_nat (length bufferss) <= offset_or_0 item + Z.of_nat i ->
       check bufferss item = false)
    /\ (forall k : Z,
          k < 0 \/ Z.of_nat (length bufferss) <= k ->
          get bufferss k = Undefined).
Proof.
  intros bufferss item _. split.
  - intros i n Hsig Hpast. apply (check_false _ _ i n Hsig).
    rewrite get_past_end; [discriminate | lia].
  - intros k [Hk | Hk]; [by apply get_negative | by apply get_past_end].
Qed.

Lemma short_buffer_no_match_witness :
  Z.of_nat (length (take 8 png_head))
    < offset_or_0 mp4 + Z.of_nat (length (signature mp4))
  /\ check (take 8 png_head) mp4 = false.
Proof.
  split; [vm_compute; reflexivity |].
  refine (proj1 (short_buffer_no_match (take 8 png_head) mp4 _) 4%nat 0x69 _ _);
    [vm_compute; reflexivity | reflexivity | vm_compute; discriminate].
Defined.

(** C3, as first stated, fails: the one-byte buffer [0x89] is shorter
    than the two positions of [open_tail], and still matches it. *)
Lemma short_buffer_can_match :
  ~ (forall (bufferss : list byte) (item : typeItem),
       Z.of_nat (length bufferss)
         < offset_or_0 item + Z.of_nat (length (signature item)) ->
       check bufferss item = false).
Proof.
  intros H. specialize (H [Byte.x89] open_tail).
  vm_compute in H. discriminate H. reflexivity.
Qed.

(** C6: in a buffer that matches an entry, overwriting the byte that
    faces a number of the signature with any byte of another value
    makes [check] return [false]. *)
Theorem flip_concrete_byte :
  forall (bufferss : list byte) (item : typeItem) (i : nat) (n : Z) (x : byte),
    check bufferss item = true ->
    signature item !! i = Some (Num n) ->
    byte_val x <> n ->
    check (put bufferss (offset_or_0 item + Z.of_nat i) x) item = false.
Proof.
  intros bufferss item i n x Hc Hsig Hx.
  pose proof (proj1 (check_positions _ _) Hc) as Hall.
  destruct (Hall i (Num n) Hsig) as [Hw | (y & Hy & _)]; [discriminate |].
  apply (check_false _ _ i n Hsig).
  replace (Z.of_nat i + offset_or_0 item)
    with (offset_or_0 item + Z.of_nat i) by lia.
  rewrite (get_put_same _ _ y x Hy). congruence.
Qed.

Lemma flip_concrete_byte_witness :
  check png_head png = true
  /\ check (put png_head (offset_or_0 png + Z.of_nat 3) Byte.x00) png = false.
Proof.
  split; [reflexivity |].
  apply (flip_concrete_byte png_head png 3 0x47 Byte.x00);
    [reflexivity | reflexivity | vm_compute; discriminate].
Defined.

(** C8: [check] looks at the buffer only through the cells
    [offset .. offset + signature.length - 1]: two buffers that read
    the same there (same byte, or missing in both) get the same
    answer. *)
Theorem check_same_window :
  forall (b1 b2 : list byte) (item : typeItem),
    same_window b1 b2 item -> check b1 item = check b2 item.
Proof.
  intros b1 b2 item Hsame.
  assert (forall a b : list byte, same_window a b item ->
            check a item = true -> check b item = true) as Hmono.
  { intros a b Hab. rewrite !check_true. intros Hall j Hj.
    specialize (Hall j Hj). unfold position_ok in *.
    replace (Z.of_nat j + offset_or_0 item)
      with (offset_or_0 item + Z.of_nat j) in * by lia.
    rewrite <- (Hab j Hj). exact Hall. }
  destruct (check b1 item) eqn:H1, (check b2 item) eqn:H2; try reflexivity.
  - rewrite <- H2. symmetry. by apply (Hmono b1 b2).
  - rewrite <- H1. apply (Hmono b2 b1); [| assumption].
    intros j Hj. symmetry. by apply Hsame.
Qed.

Lemma check_same_window_witness :
  check png_head png = check (take 8 png_head) png.
Proof.
  apply (check_same_window png_head (take 8 png_head) png).
  intros i Hi. change (length (signature png)) with 8%nat in Hi.
  do 8 (destruct i as [| i]; [reflexivity |]). lia.
Defined.

(** ** [getFileType] *)

Lemma classify_first buffers pre item post file :
  none_match buffers pre -> check buffers item = true ->
  classify buffers (pre ++ item :: post) file
  = Info.Make (mime item) (ext item).
Proof.
  intros Hpre Hc. unfold classify. by rewrite (scan_first _ _ _ _ Hpre Hc).
Qed.

Lemma classify_fallback buffers l file :
  none_match buffers l ->
  scan buffers l = None /\ classify buffers l file = Info.Make (type file) "".
Proof.
  intros Hn. apply scan_None in Hn. unfold classify. by rewrite Hn.
Qed.

Lemma scan_cases buffers l :
  (none_match buffers l /\ scan buffers l = None)
  \/ (exists pre item post,
        l = pre ++ item :: post /\ none_match buffers pre
        /\ check buffers item = true
        /\ scan buffers l = Some (Info.Make (mime item) (ext item))).
Proof.
  destruct (scan buffers l) as [found |] eqn:Hs.
  - right. destruct (first_match_split buffers l)
      as (pre & item & post & -> & Hpre & Hc).
    { intros Hn. apply scan_None in Hn. congruence. }
    exists pre, item, post. rewrite <- Hs. by rewrite scan_first.
  - left. split; [by apply scan_None | reflexivity].
Qed.

(** C2: the loop tries the entries in list order and returns the
    [{ mime, ext }] of the first one that matches; of two matching
    entries the earlier one wins; the fallback object is returned
    exactly when the loop found no matching entry. *)
Theorem classify_first_match_wins :
  forall (buffers : list byte) (signatureList : list typeItem) (file : File),
    (forall pre item post,
       signatureList = pre ++ item :: post ->
       none_match buffers pre -> check buffers item = true ->
       scan buffers signatureList = Some (Info.Make (mime item) (ext item))
       /\ classify buffers signatureList file
          = Info.Make (mime item) (ext item))
    /\ (forall pre item1 mid item2 post,
          signatureList = pre ++ item1 :: mid ++ item2 :: post ->
          none_match buffers pre ->
          check buffers item1 = true -> check buffers item2 = true ->
          classify buffers signatureList file
          = Info.Make (mime item1) (ext item1))
    /\ (scan buffers signatureList = None
        <-> none_match buffers signatureList)
    /\ (none_match buffers signatureList ->
        classify buffers signatureList file = Info.Make (type file) "").
Proof.
  intros buffers signatureList file. repeat split.
  - subst. by apply scan_first.
  - subst. by apply classify_first.
  - intros pre item1 mid item2 post -> Hpre H1 _. by apply classify_first.
  - by apply scan_None.
  - by apply scan_None.
  - intros Hn. by apply classify_fallback.
Qed.

(** C4, as amended: on the empty buffer the loop finds nothing and the
    fallback object is returned, for every list whose entries each
    hold a number at some position of their signature. *)
Theorem empty_buffer_falls_back :
  forall (signatureList : list typeItem) (file : File),
    signatureList <> [] ->
    Forall (fun item => 0 <= offset_or_0 item) signatureList ->
    Forall (fun item => has_concrete item = true) signatureList ->
    scan [] signatureList = None
    /\ classify [] signatureList file = Info.Make (type file) "".
Proof.
  intros signatureList file _ _ Hconcrete. apply classify_fallback.
  unfold none_match. eapply Forall_impl; [exact Hconcrete |].
  intros item Hitem. simpl in Hitem.
  apply has_concrete_lookup in Hitem as (i & n & Hsig).
  apply (check_false _ _ i n Hsig). by rewrite get_nil.
Qed.

Lemma empty_buffer_falls_back_witness :
  classify [] readme_list empty_file = Info.Make "" "".
Proof.
  apply (empty_buffer_falls_back readme_list empty_file).
  - discriminate.
  - repeat constructor; vm_compute; discriminate.
  - repeat constructor.
Defined.

(** C4, as first stated, fails: a list whose only entry is the open
    position [any_byte] is non-empty and has offset 0, and the empty
    buffer is recognised as that entry. *)
Lemma empty_buffer_can_match :
  ~ (forall (signatureList : list typeItem) (file : File),
       signatureList <> [] ->
       Forall (fun item => 0 <= offset_or_0 item) signatureList ->
       classify [] signatureList file = Info.Make (type file) "").
Proof.
  intros H.
  assert (classify [] [any_byte] empty_file = Info.Make (type empty_file) "")
    as Hres.
  { apply H; [discriminate |]. repeat constructor. vm_compute. discriminate. }
  vm_compute in Hres. discriminate Hres.
Qed.

(** C5: the callback always returns an object: the fields of a
    matching entry of the list, or, when nothing matches, the fallback
    object; once the bytes are read the promise of [getFileType]
    resolves with it, and no outcome of the read makes the promise
    reject. *)
Theorem classify_never_fails :
  forall (E : Type) (reader : FileReader E) (signatureList : list typeItem)
         (file : File) (opts : options) (buffers : list byte),
    getFileType reader signatureList file opts
    = match reader file opts with
      | onload result => Resolved (inl (classify result signatureList file))
      | onerror err | onabort err | thrown err => Resolved (inr err)
      end
    /\ ((exists item,
           item ∈ signatureList /\ check buffers item = true
           /\ classify buffers signatureList file
              = Info.Make (mime item) (ext item))
        \/ (none_match buffers signatureList
            /\ classify buffers signatureList file
               = Info.Make (type file) ""))
    /\ (exists v, getFileType reader signatureList file opts = Resolved v).
Proof.
  intros E reader signatureList file opts buffers.
  split; [| split].
  - unfold getFileType, getArrayBuffer. by destruct (reader file opts).
  - destruct (scan_cases buffers signatureList)
      as [[Hn _] | (pre & item & post & -> & Hpre & Hc & _)].
    + right. split; [assumption | by apply classify_fallback].
    + left. exists item. split; [| split].
      * apply elem_of_app. right. apply list_elem_of_here.
      * assumption.
      * by apply classify_first.
  - unfold getFileType, getArrayBuffer.
    destruct (reader file opts); eexists; reflexivity.
Qed.

(** C9: an entry whose signature is the empty array matches every
    buffer, the empty one included; with such an entry in the list the
    loop always returns from inside, so the fallback is never reached,
    and the entry's own fields are returned for every buffer that no
    earlier entry matches. *)
Theorem empty_signature_matches_all :
  forall item : typeItem,
    signature item = [] ->
    (forall buffers : list byte, check buffers item = true)
    /\ (forall (buffers : list byte) (signatureList : list typeItem),
          item ∈ signatureList -> scan buffers signatureList <> None)
    /\ (forall (buffers : list byte) (pre post : list typeItem) (file : File),
          none_match buffers pre ->
          classify buffers (pre ++ item :: post) file
          = Info.Make (mime item) (ext item)).
Proof.
  intros item Hsig.
  assert (forall buffers : list byte, check buffers item = true) as Hall.
  { intros buffers. unfold check. by rewrite Hsig. }
  split; [exact Hall | split].
  - intros buffers signatureList Hin Hscan. apply scan_None in Hscan.
    unfold none_match in Hscan. rewrite Forall_forall in Hscan.
    apply Hscan in Hin. rewrite Hall in Hin. discriminate.
  - intros buffers pre post file Hpre. by apply classify_first.
Qed.

Lemma empty_signature_matches_all_witness :
  check [] no_bytes = true
  /\ classify png_head (mp4 :: no_bytes :: readme_list) renamed_png
     = Info.Make "application/x-none" "none".
Proof.
  destruct (empty_signature_matches_all no_bytes eq_refl) as (Hc & _ & Hfirst).
  split; [apply Hc |].
  apply (Hfirst png_head [mp4] readme_list renamed_png).
  repeat constructor.
Defined.

(** C10: when no entry matched, so that the fallback object is what
    the callback returns, its [ext] field is the empty string,
    whatever the buffer, the list and [file.type] are. *)
Theorem fallback_ext_is_empty :
  forall (buffers : list byte) (signatureList : list typeItem) (file : File),
    none_match buffers signatureList ->
    scan buffers signatureList = None
    /\ Info.ext (classify buffers signatureList file) = ""
    /\ Info.mime (classify buffers signatureList file) = type file.
Proof.
  intros buffers signatureList file Hn.
  destruct (classify_fallback _ _ file Hn) as [Hscan Hres].
  rewrite Hres. by repeat split.
Qed.

Lemma fallback_ext_is_empty_witness :
  Info.ext (classify (replicate 32 Byte.x00) readme_list renamed_png) = "".
Proof.
  apply (fallback_ext_is_empty (replicate 32 Byte.x00) readme_list renamed_png).
  repeat constructor.
Defined.

(** ** Table construction *)

Lemma existsb_malformed items :
  existsb malformed items = true
  <-> exists item, item ∈ items /\ signature item = [].
Proof.
  rewrite existsb_exists. split.
  - intros (item & Hin & Hbad). exists item. split; [by apply list_elem_of_In |].
    unfold malformed in Hbad. by destruct (signature item).
  - intros (item & Hin & Hsig). exists item. split; [by apply list_elem_of_In |].
    unfold malformed. by rewrite Hsig.
Qed.

(** C7: construction rejects a list that holds an entry with an empty
    pattern with [ConfigurationError]; it succeeds, keeping the
    entries in order, when every pattern is non-empty; a table that
    was constructed holds no malformed entry, and matching against it
    resolves with a [{ mime, ext }] object, never with that error. *)
Theorem construct_checks_patterns :
  (forall items : list typeItem,
     (exists item, item ∈ items /\ signature item = []) ->
     construct items = inl ConfigurationError)
  /\ (forall items : list typeItem,
        Forall (fun item => signature item <> []) items ->
        construct items = inr {| entries := items |})
  /\ (forall (items : list typeItem) (table : SignatureTable),
        construct items = inr table ->
        entries table = items
        /\ forall item, item ∈ entries table -> signature item <> [])
  /\ (forall (items : list typeItem) (table : SignatureTable)
             (file : File) (opts : options) (buffers : list byte),
        construct items = inr table ->
        getFileType (E := construction_error) (fun _ _ => onload buffers)
                    (entries table) file opts
        = Resolved (inl (classify buffers items file))).
Proof.
  assert (forall items table, construct items = inr table ->
            entries table = items
            /\ forall item, item ∈ items -> signature item <> []) as Hbuilt.
  { intros items table. unfold construct.
    destruct (existsb malformed items) eqn:Hbad; [discriminate |].
    intros [= <-]. split; [reflexivity |]. intros item Hin Hsig.
    assert (existsb malformed items = true) by (apply existsb_malformed; eauto).
    congruence. }
  split; [| split; [| split]].
  - intros items Hbad. apply existsb_malformed in Hbad.
    unfold construct. by rewrite Hbad.
  - intros items Hok. unfold construct.
    destruct (existsb malformed items) eqn:Hbad; [| reflexivity].
    apply existsb_malformed in Hbad as (item & Hin & Hsig).
    rewrite Forall_forall in Hok. apply Hok in Hin. contradiction.
  - intros items table Hc. destruct (Hbuilt _ _ Hc) as [-> Hok].
    split; [reflexivity | exact Hok].
  - intros items table file opts buffers Hc.
    destruct (Hbuilt _ _ Hc) as [-> _]. reflexivity.
Qed.

(** * Further properties of [check] *)

(** ** Reading cells of related buffers *)

Lemma byte_val_range x : 0 <= byte_val x < 256.
Proof.
  unfold byte_val. pose proof (Byte.to_N_bounded x). lia.
Qed.

Lemma get_range bufferss k n : get bufferss k = Num n -> 0 <= n < 256.
Proof.
  intros (x & _ & <-)%get_Num. apply byte_val_range.
Qed.

Lemma get_inside bufferss k :
  get bufferss k <> Undefined -> 0 <= k < Z.of_nat (length bufferss).
Proof.
  intros Hget. destruct (Z.ltb_spec k 0) as [Hk | Hk].
  - by rewrite get_negative in Hget.
  - destruct (Z.ltb_spec k (Z.of_nat (length bufferss))); [lia |].
    by rewrite get_past_end in Hget.
Qed.

Lemma get_app_l bufferss more k :
  k < Z.of_nat (length bufferss) -> get (bufferss ++ more) k = get bufferss k.
Proof.
  intros Hk. unfold get. destruct (Z.ltb_spec k 0); [reflexivity |].
  rewrite lookup_app_l; [reflexivity | lia].
Qed.

Lemma get_app_r before bufferss k :
  0 <= k ->
  get (before ++ bufferss) (k + Z.of_nat (length before)) = get bufferss k.
Proof.
  intros Hk. unfold get.
  destruct (Z.ltb_spec (k + Z.of_nat (length before)) 0); [lia |].
  destruct (Z.ltb_spec k 0); [lia |].
  rewrite lookup_app_r by lia.
  replace (Z.to_nat (k + Z.of_nat (length before)) - length before)%nat
    with (Z.to_nat k) by lia.
  reflexivity.
Qed.

Lemma get_take bufferss m k :
  k < Z.of_nat m -> get (take m bufferss) k = get bufferss k.
Proof.
  intros Hk. unfold get. destruct (Z.ltb_spec k 0); [reflexivity |].
  rewrite lookup_take_lt; [reflexivity | lia].
Qed.

Lemma get_put_other buffers k x k' :
  k <> k' -> get (put buffers k x) k' = get buffers k'.
Proof.
  intros Hne. unfold get, put.
  destruct (Z.ltb_spec k' 0); [reflexivity |].
  destruct (Z.ltb_spec k 0); [reflexivity |].
  rewrite list_lookup_insert_ne; [reflexivity | lia].
Qed.

(** ** Comparing two runs of the loop *)

Lemma at_index_lookup signature j p :
  signature !! j = Some p -> at_index signature j = p.
Proof. intros H. unfold at_index. by rewrite H. Qed.

Lemma at_index_concrete signature j :
  at_index signature j <> Undefined ->
  exists n, signature !! j = Some (Num n).
Proof.
  unfold at_index. destruct (signature !! j) as [[| n] |]; simpl; try done.
  eauto.
Qed.

(** Two runs agree when the signatures are the same and every
    position that holds a number reads the same cell value. *)
Lemma check_agree b1 b2 item1 item2 :
  signature item1 = signature item2 ->
  (forall (j : nat) (n : Z),
     signature item1 !! j = Some (Num n) ->
     get b1 (Z.of_nat j + offset_or_0 item1)
     = get b2 (Z.of_nat j + offset_or_0 item2)) ->
  check b1 item1 = check b2 item2.
Proof.
  intros Hsig Hget. apply eq_true_iff_eq. rewrite !check_true, <- Hsig.
  unfold position_ok.
  split; intros Hall j Hj; (destruct (Hall j Hj) as [Hw | Heq]; [by left |]);
    destruct (decide (at_index (signature item1) j = Undefined)) as [| Hc];
    try (by left); right;
    destruct (at_index_concrete _ _ Hc) as [n Hn];
    specialize (Hget j n Hn); congruence.
Qed.

(** ** Edge behaviour *)

(** X1: the entries that match the empty buffer are exactly those
    whose signature holds nothing but [undefined]; such an entry
    matches every buffer. *)
Theorem check_only_wildcards :
  forall item : typeItem,
    (check [] item = true <-> Forall (fun p => p = Undefined) (signature item))
    /\ (Forall (fun p => p = Undefined) (signature item) ->
        forall bufferss : list byte, check bufferss item = true).
Proof.
  intros item.
  assert (Forall (fun p => p = Undefined) (signature item) ->
          forall bufferss : list byte, check bufferss item = true) as Hany.
  { intros Hall bufferss. apply check_true. intros j Hj. left.
    destruct (lookup_lt_is_Some_2 _ _ Hj) as [p Hp].
    rewrite (at_index_lookup _ _ _ Hp).
    rewrite Forall_lookup in Hall. by apply (Hall j). }
  split; [split |]; [| by intros Hall; apply Hany | exact Hany].
  rewrite check_true, Forall_lookup. intros Hall j p Hp.
  destruct (Hall j) as [Hw | Heq].
  - by apply lookup_lt_Some in Hp.
  - by rewrite (at_index_lookup _ _ _ Hp) in Hw.
  - rewrite get_nil, (at_index_lookup _ _ _ Hp) in Heq. by symmetry.
Qed.

(** X2: a number of the signature that would be compared with a cell
    of negative index never finds its byte: the entry matches no
    buffer. *)
Theorem check_negative_index :
  forall (bufferss : list byte) (item : typeItem) (i : nat) (n : Z),
    signature item !! i = Some (Num n) ->
    Z.of_nat i + offset_or_0 item < 0 ->
    check bufferss item = false.
Proof.
  intros bufferss item i n Hsig Hneg. apply (check_false _ _ i n Hsig).
  by rewrite get_negative.
Qed.

Lemma check_negative_index_witness :
  check png_head (TypeItem "image/png" "png" (Some (-1)) (signature png)) = false.
Proof.
  apply (check_negative_index png_head _ 0%nat 0x89); [reflexivity | vm_compute; reflexivity].
Defined.

(** X3: a number of the signature outside [0 .. 255] is not the value
    of any cell of a [Uint8Array]: the entry matches no buffer. *)
Theorem check_number_not_a_byte :
  forall (bufferss : list byte) (item : typeItem) (i : nat) (n : Z),
    signature item !! i = Some (Num n) ->
    n < 0 \/ 255 < n ->
    check bufferss item = false.
Proof.
  intros bufferss item i n Hsig Hn. apply (check_false _ _ i n Hsig).
  intros Hget. apply get_range in Hget. lia.
Qed.

Lemma check_number_not_a_byte_witness :
  check png_head (TypeItem "image/png" "png" None [Num 0x89; Num 0x150]) = false.
Proof.
  apply (check_number_not_a_byte png_head _ 1%nat 0x150); [reflexivity | right; vm_compute; reflexivity].
Defined.

(** ** Longer and shorter buffers *)

Lemma check_app bufferss more item :
  check bufferss item = true -> check (bufferss ++ more) item = true.
Proof.
  rewrite !check_true.
  intros Hall j Hj. destruct (Hall j Hj) as [Hw | Heq]; [by left |].
  destruct (decide (at_index (signature item) j = Undefined)) as [| Hc];
    [by left | right].
  rewrite get_app_l; [assumption |].
  apply get_inside. congruence.
Qed.

(** X4: bytes added at the end of a buffer never undo a match, so a
    match found in the first [m] bytes of a buffer holds for the
    whole buffer. *)
Theorem check_more_bytes :
  forall (bufferss more : list byte) (item : typeItem),
    check bufferss item = true ->
    check (bufferss ++ more) item = true
    /\ forall (whole : list byte) (m : nat),
         bufferss = take m whole -> check whole item = true.
Proof.
  intros bufferss more item Hc. split; [by apply check_app |].
  intros whole m ->. rewrite <- (take_drop m whole). by apply check_app.
Qed.

Lemma check_more_bytes_witness :
  check (take 8 png_head) png = true
  /\ check (take 8 png_head ++ drop 8 png_head) png = true.
Proof.
  split; [reflexivity |].
  apply (proj1 (check_more_bytes (take 8 png_head) (drop 8 png_head) png eq_refl)).
Defined.

(** X5: cutting a buffer at or after [offset + signature.length] does
    not change the answer: the cells beyond are never read. *)
Theorem check_take_window :
  forall (bufferss : list byte) (item : typeItem) (m : nat),
    offset_or_0 item + Z.of_nat (length (signature item)) <= Z.of_nat m ->
    check (take m bufferss) item = check bufferss item.
Proof.
  intros bufferss item m Hm. apply check_agree; [reflexivity |].
  intros j n Hj. apply lookup_lt_Some in Hj. apply get_take. lia.
Qed.

Lemma check_take_window_witness :
  check (take 12 (replicate 4 Byte.x00 ++ mp4_brand ++ png_head)) mp4
  = check (replicate 4 Byte.x00 ++ mp4_brand ++ png_head) mp4.
Proof.
  apply (check_take_window _ mp4 12). vm_compute. discriminate.
Defined.

(** X6: with a non-negative offset, an entry looks at a buffer the
    way the same signature with a larger offset looks at the buffer
    with as many bytes put in front: those leading bytes are never
    compared. *)
Theorem check_shift_offset :
  forall (before bufferss : list byte) (item shifted : typeItem),
    signature shifted = signature item ->
    0 <= offset_or_0 item ->
    offset_or_0 shifted = offset_or_0 item + Z.of_nat (length before) ->
    check (before ++ bufferss) shifted = check bufferss item.
Proof.
  intros before bufferss item shifted Hsig Hoff Hshift.
  apply check_agree; [assumption |].
  intros j n _. rewrite Hshift.
  replace (Z.of_nat j + (offset_or_0 item + Z.of_nat (length before)))
    with (Z.of_nat j + offset_or_0 item + Z.of_nat (length before)) by lia.
  apply get_app_r. lia.
Qed.

Lemma check_shift_offset_witness :
  check (replicate 4 Byte.xff ++ mp4_brand) mp4
  = check mp4_brand (TypeItem "video/mp4" "mp4" None (signature mp4)).
Proof.
  apply (check_shift_offset (replicate 4 Byte.xff) mp4_brand
           (TypeItem "video/mp4" "mp4" None (signature mp4)) mp4);
    [reflexivity | vm_compute; discriminate | reflexivity].
Defined.

(** X7: writing a cell that no number of the signature is compared
    with (a cell outside the window, or one under a wildcard) leaves
    the answer unchanged. *)
Theorem check_put_elsewhere :
  forall (bufferss : list byte) (item : typeItem) (k : Z) (x : byte),
    (forall (i : nat) (n : Z),
       signature item !! i = Some (Num n) ->
       Z.of_nat i + offset_or_0 item <> k) ->
    check (put bufferss k x) item = check bufferss item.
Proof.
  intros bufferss item k x Hfree. apply check_agree; [reflexivity |].
  intros j n Hj. apply get_put_other. intros ->. by apply (Hfree j n).
Qed.

Lemma check_put_elsewhere_witness :
  check (put (replicate 4 Byte.x00 ++ mp4_brand) 2 Byte.xff) mp4
  = check (replicate 4 Byte.x00 ++ mp4_brand) mp4.
Proof.
  apply (check_put_elsewhere _ mp4 2 Byte.xff).
  intros i n _. change (offset_or_0 mp4) with 4. lia.
Defined.

(** ** Signatures without wildcards, and joined signatures *)

(** X8: for a non-negative offset and a signature made of numbers
    only, [check] succeeds exactly when the [signature.length] cells
    from [offset] on exist and hold the signature. *)
Theorem check_concrete_slice :
  forall (bufferss : list byte) (item : typeItem),
    0 <= offset_or_0 item ->
    Forall (fun p => p <> Undefined) (signature item) ->
    (check bufferss item = true
     <-> (fun x => Num (byte_val x))
           <$> take (length (signature item))
                    (drop (Z.to_nat (offset_or_0 item)) bufferss)
         = signature item).
Proof.
  intros bufferss item Hoff Hconcrete.
  rewrite Forall_lookup in Hconcrete.
  assert (forall j : nat,
            Z.to_nat (offset_or_0 item + Z.of_nat j)
            = (Z.to_nat (offset_or_0 item) + j)%nat) as Hidx by (intros; lia).
  rewrite check_positions. split.
  - intros Hall. apply list_eq. intros j.
    rewrite list_lookup_fmap.
    destruct (signature item !! j) as [p |] eqn:Hp.
    + rewrite lookup_take_lt by (by apply lookup_lt_Some in Hp).
      rewrite lookup_drop.
      destruct (Hall j p Hp) as [-> | (x & [_ Hx] & ->)].
      * by destruct (Hconcrete j Undefined Hp).
      * rewrite Hidx in Hx. by rewrite Hx.
    + rewrite lookup_take_ge; [reflexivity |]. by apply lookup_ge_None.
  - intros Heq j p Hp. right.
    rewrite <- Heq, list_lookup_fmap in Hp.
    destruct (take _ _ !! j) as [x |] eqn:Hx; [| discriminate].
    injection Hp as <-. exists x. split; [| reflexivity].
    apply lookup_take_Some in Hx as [Hx _]. rewrite lookup_drop in Hx.
    split; [lia |]. by rewrite Hidx.
Qed.

Lemma check_concrete_slice_witness :
  check (replicate 4 Byte.x00 ++ mp4_brand ++ png_head) mp4 = true.
Proof.
  apply (check_concrete_slice _ mp4).
  - vm_compute. discriminate.
  - repeat constructor; discriminate.
  - reflexivity.
Defined.

(** X9: a signature that is two signatures joined matches exactly
    when the first part matches at the offset and the second part
    matches right behind it. *)
Theorem check_joined_signature :
  forall (bufferss : list byte) (item front back : typeItem),
    signature item = signature front ++ signature back ->
    offset_or_0 front = offset_or_0 item ->
    offset_or_0 back
    = offset_or_0 item + Z.of_nat (length (signature front)) ->
    check bufferss item = check bufferss front && check bufferss back.
Proof.
  intros bufferss item front back Hsig Hfront Hback.
  apply eq_true_iff_eq. rewrite andb_true_iff, !check_positions, Hsig.
  rewrite Hfront, Hback. split.
  - intros Hall. split; intros j p Hp.
    + apply Hall. by apply lookup_app_l_Some.
    + replace (offset_or_0 item + Z.of_nat (length (signature front))
               + Z.of_nat j)
        with (offset_or_0 item
              + Z.of_nat (length (signature front) + j)%nat) by lia.
      apply Hall. rewrite lookup_app_r by lia.
      by replace (length (signature front) + j - length (signature front))%nat
        with j by lia.
  - intros [Hf Hb] j p Hp. apply lookup_app_Some in Hp as [Hp | [Hge Hp]].
    + by apply Hf.
    + specialize (Hb _ p Hp).
      by replace (offset_or_0 item + Z.of_nat (length (signature front))
                  + Z.of_nat (j - length (signature front))%nat)
         with (offset_or_0 item + Z.of_nat j) in Hb by lia.
Qed.

Lemma check_joined_signature_witness :
  check png_head png
  = check png_head (TypeItem "" "" None (take 4 (signature png)))
    && check png_head (TypeItem "" "" (Some 4) (drop 4 (signature png))).
Proof.
  apply (check_joined_signature png_head png); reflexivity.
Defined.

(** * Further properties of [getFileType] *)

Lemma scan_app_eq buffers l1 l2 :
  scan buffers (l1 ++ l2)
  = match scan buffers l1 with
    | Some found => Some found
    | None => scan buffers l2
    end.
Proof.
  induction l1 as [| item rest IH]; simpl; [reflexivity |].
  by destruct (check buffers item).
Qed.

Lemma scan_some_match buffers l found :
  scan buffers l = Some found ->
  exists item, item ∈ l /\ check buffers item = true.
Proof.
  induction l as [| x rest IH]; simpl; [discriminate |].
  destruct (check buffers x) eqn:Hc.
  - intros _. exists x. split; [apply list_elem_of_here | assumption].
  - intros (item & Hin & Hitem)%IH. exists item.
    split; [by apply list_elem_of_further | assumption].
Qed.

Lemma match_scan_some buffers l item :
  item ∈ l -> check buffers item = true ->
  exists found, scan buffers l = Some found.
Proof.
  intros Hin Hc. destruct (scan buffers l) as [found |] eqn:Hs; [eauto |].
  apply scan_None in Hs. unfold none_match in Hs.
  rewrite Forall_forall in Hs. apply Hs in Hin. congruence.
Qed.

(** A signature that starts with another one, at the same offset,
    matches only buffers the shorter one matches too. *)
Lemma check_longer_signature bufferss item longer tail :
  signature longer = signature item ++ tail ->
  offset_or_0 longer = offset_or_0 item ->
  check bufferss longer = true -> check bufferss item = true.
Proof.
  intros Hsig Hoff. rewrite !check_positions, Hsig, Hoff.
  intros Hall j p Hp. apply Hall. by apply lookup_app_l_Some.
Qed.

(** X10: entries added at the end of the list are tried only when
    none of the old ones matches: a buffer the old list recognised
    keeps its answer, and a buffer it did not recognise gets the
    answer of the added entries alone. *)
Theorem classify_appended_entries :
  forall (buffers : list byte) (old added : list typeItem) (file : File),
    (forall found : Info.t,
       scan buffers old = Some found ->
       classify buffers (old ++ added) file = found
       /\ classify buffers old file = found)
    /\ (none_match buffers old ->
        classify buffers (old ++ added) file = classify buffers added file).
Proof.
  intros buffers old added file. unfold classify. rewrite scan_app_eq. split.
  - intros found Hs. by rewrite Hs.
  - intros Hn. apply scan_None in Hn. by rewrite Hn.
Qed.

(** X11: when some entry of the list matches the bytes that were
    read, the answer does not depend on the [File] object: neither
    [classify] nor the promise of [getFileType] looks at [file.type]. *)
Theorem matched_type_ignores_file :
  forall (E : Type) (reader : FileReader E) (signatureList : list typeItem)
         (buffers : list byte) (item : typeItem)
         (file1 file2 : File) (opts1 opts2 : options),
    item ∈ signatureList -> check buffers item = true ->
    reader file1 opts1 = onload buffers ->
    reader file2 opts2 = onload buffers ->
    classify buffers signatureList file1 = classify buffers signatureList file2
    /\ getFileType reader signatureList file1 opts1
       = getFileType reader signatureList file2 opts2.
Proof.
  intros E reader signatureList buffers item file1 file2 opts1 opts2
         Hin Hc Hr1 Hr2.
  assert (classify buffers signatureList file1
          = classify buffers signatureList file2) as Hsame.
  { destruct (match_scan_some _ _ _ Hin Hc) as [found Hs].
    unfold classify. by rewrite Hs. }
  split; [exact Hsame |].
  unfold getFileType, getArrayBuffer. rewrite Hr1, Hr2. simpl. by rewrite Hsame.
Qed.

Lemma matched_type_ignores_file_witness :
  getFileType (E := string) (fun _ _ => onload png_head) readme_list
              renamed_png default_options
  = getFileType (E := string) (fun _ _ => onload png_head) readme_list
                empty_file {| start := 0; end_ := 16 |}.
Proof.
  refine (proj2 (matched_type_ignores_file string (fun _ _ => onload png_head)
                   readme_list png_head png renamed_png empty_file
                   default_options {| start := 0; end_ := 16 |} _ _ _ _));
    [| reflexivity | reflexivity | reflexivity].
  do 2 apply list_elem_of_further. apply list_elem_of_here.
Defined.

(** X12: an entry listed after an entry with the same offset whose
    signature is the beginning of its own is never the one returned:
    taking it out of the list changes no answer. *)
Theorem shadowed_entry_is_dead :
  forall (buffers : list byte) (pre mid post : list typeItem)
         (item longer : typeItem) (tail : list value) (file : File),
    signature longer = signature item ++ tail ->
    offset_or_0 longer = offset_or_0 item ->
    classify buffers (pre ++ item :: mid ++ longer :: post) file
    = classify buffers (pre ++ item :: mid ++ post) file.
Proof.
  intros buffers pre mid post item longer tail file Hsig Hoff.
  unfold classify. rewrite !scan_app_eq. simpl.
  destruct (check buffers item) eqn:Hitem; [reflexivity |].
  rewrite !scan_app_eq. simpl.
  destruct (check buffers longer) eqn:Hlonger; [| reflexivity].
  apply (check_longer_signature _ _ _ _ Hsig Hoff) in Hlonger. congruence.
Qed.

Lemma shadowed_entry_is_dead_witness :
  classify png_head
    ([pdf] ++ jpeg :: [png] ++
     TypeItem "image/jpeg" "jfif" (Some 0) (bytes_of [0xFF; 0xD8; 0xFF; 0xE0])
     :: [gif]) renamed_png
  = classify png_head ([pdf] ++ jpeg :: [png] ++ [gif]) renamed_png.
Proof.
  apply (shadowed_entry_is_dead png_head [pdf] [png] [gif] jpeg _ [Num 0xE0]);
    reflexivity.
Defined.

(** X13: reading more bytes never turns a recognised file into an
    unknown one: if the loop returned an entry for a buffer, it
    returns an entry for every buffer that continues it. *)
Theorem recognised_with_more_bytes :
  forall (buffers more : list byte) (signatureList : list typeItem)
         (found : Info.t),
    scan buffers signatureList = Some found ->
    exists found' : Info.t, scan (buffers ++ more) signatureList = Some found'.
Proof.
  intros buffers more signatureList found Hs.
  destruct (scan_some_match _ _ _ Hs) as (item & Hin & Hc).
  apply (match_scan_some _ _ item Hin). by apply check_app.
Qed.

Lemma recognised_with_more_bytes_witness :
  exists found' : Info.t,
    scan (take 8 png_head ++ drop 8 png_head) readme_list = Some found'.
Proof.
  apply (recognised_with_more_bytes (take 8 png_head) (drop 8 png_head)
           readme_list (Info.Make "image/png" "png")).
  reflexivity.
Defined.
